(** * etre: entities, sets, write results and errors

    A shallow embedding of package [etre] (etre.go): the dynamically typed
    [Entity] map with its accessors, the [Set] projection, the meta-label
    table, [WriteResult.IsZero] and [Error.New], with the properties the
    specification states about them. *)

From Stdlib Require Import ZArith String Ascii List Sorted Permutation Lia.
From stdpp Require Import base gmap strings list fin_maps.

Local Open Scope string_scope.
Local Open Scope Z_scope.

(** ** Machine integers *)

Module GoInt.

(** Go's [int] is 32 or 64 bits wide, fixed by the platform. *)
Inductive arch : Set := Arch32 | Arch64.

Definition IntSize (a : arch) : Z :=
  match a with Arch32 => 32 | Arch64 => 64 end.

(** The values of a signed [w]-bit integer. *)
Definition in_range (w z : Z) : Prop := - 2 ^ (w - 1) <= z < 2 ^ (w - 1).

(** Conversion to a signed [w]-bit integer type: the two's complement
    value is sign extended, then truncated to [w] bits. *)
Definition wrap (w z : Z) : Z := (z + 2 ^ (w - 1)) mod 2 ^ w - 2 ^ (w - 1).

End GoInt.
Import GoInt.

(** ** Dynamically typed values *)

Local Set Warnings "-register-all".

(** What an [interface{}] stored in an entity can hold.  [VNil] is the nil
    interface; [VOther T] stands for a value of any further dynamic type,
    named [T]. *)
Inductive value : Type :=
| VNil
| VString (s : string)
| VInt64 (n : Z)
| VInt32 (n : Z)
| VInt (n : Z)
| VFloat64 (bits : Z)
| VBool (b : bool)
| VMap (m : gmap string value)
| VSlice (l : list value)
| VOther (T : string).

(** The dynamic type of a value, as the type switches of the package see
    it. *)
Inductive dyntype : Set :=
| TNil | TString | TInt64 | TInt32 | TInt | TUnlisted.

Definition type_of (v : value) : dyntype :=
  match v with
  | VNil => TNil
  | VString _ => TString
  | VInt64 _ => TInt64
  | VInt32 _ => TInt32
  | VInt _ => TInt
  | _ => TUnlisted
  end.

(** ** Panics *)

(** A panic is either raised by the runtime (a failed type assertion, an
    index out of range) or by an explicit [panic(msg)]. *)
Inductive panic : Type :=
| TypeAssertion (v : value) (want : dyntype)
| IndexOutOfRange (i len : nat)
| PanicString (msg : string).

Inductive result (A : Type) : Type :=
| Ok (a : A)
| Panic (p : panic).
Arguments Ok {A} a.
Arguments Panic {A} p.

Definition result_bind {A B : Type} (f : A -> result B) (r : result A)
  : result B :=
  match r with
  | Ok a => f a
  | Panic p => Panic p
  end.

#[export] Instance result_mbind : MBind result := @result_bind.
#[export] Instance result_mret : MRet result := @Ok.

Definition panics {A : Type} (r : result A) : Prop := exists p, r = Panic p.

(** Single-valued type assertions [v.(T)]: they panic when the dynamic
    type of [v] is not [T]. *)
Definition assert_string (v : value) : result string :=
  match v with VString s => Ok s | _ => Panic (TypeAssertion v TString) end.

Definition assert_int64 (v : value) : result Z :=
  match v with VInt64 n => Ok n | _ => Panic (TypeAssertion v TInt64) end.

Definition assert_int32 (v : value) : result Z :=
  match v with VInt32 n => Ok n | _ => Panic (TypeAssertion v TInt32) end.

Definition assert_int (v : value) : result Z :=
  match v with VInt n => Ok n | _ => Panic (TypeAssertion v TInt) end.

(** ** Entities *)

Abbreviation Entity := (gmap string value).

(** [e[k]]: the stored value, or the zero value of [interface{}] when the
    key is missing. *)
Definition index (e : Entity) (k : string) : value := default VNil (e !! k).

(** [v, ok := e[k]]. *)
Definition index_ok (e : Entity) (k : string) : value * bool :=
  match e !! k with
  | Some v => (v, true)
  | None => (VNil, false)
  end.

Definition META_LABEL_ID : string := "_id".
Definition META_LABEL_TYPE : string := "_type".
Definition META_LABEL_REV : string := "_rev".

Definition Entity_Id (e : Entity) : result string :=
  assert_string (index e META_LABEL_ID).

Definition Entity_Type (e : Entity) : result string :=
  assert_string (index e META_LABEL_TYPE).

Definition Entity_Has (e : Entity) (label : string) : bool :=
  let '(_, ok) := index_ok e label in ok.

Definition Entity_String (e : Entity) (label : string) : result string :=
  let v := index e label in
  match type_of v with
  | TString => assert_string v
  | _ => Ok ""
  end.

(** A Set is a user-defined logical grouping of writes. *)
Record Set_ : Type := mkSet {
  Set_Id : string;
  Set_Op : string;
  Set_Size : Z
}.

Section Platform.

(** [fmt.Sprintf] belongs to the Go library; the package only passes a
    format and arguments to it. *)
Variable Sprintf : string -> list value -> string.

Variable a : arch.

Definition Entity_Rev (e : Entity) : result Z :=
  let v := index e META_LABEL_REV in
  match type_of v with
  | TInt64 => assert_int64 v
  | TInt32 => n ← assert_int32 v; Ok (wrap 64 n)
  | TInt => n ← assert_int v; Ok (wrap 64 n)
  | _ =>
      id ← Entity_Id e;
      Panic (PanicString (Sprintf
        "entity %s has invalid _rev data type: %T; expected int64 (or int/int32 before v0.11)"
        [VString id; v]))
  end.

Definition Entity_Set (e : Entity) : result Set_ :=
  let set := mkSet "" "" 0 in
  set ← (if (index_ok e "_setId").2
         then s ← assert_string (index e "_setId");
              Ok (mkSet s (Set_Op set) (Set_Size set))
         else Ok set);
  set ← (if (index_ok e "_setOp").2
         then s ← assert_string (index e "_setOp");
              Ok (mkSet (Set_Id set) s (Set_Size set))
         else Ok set);
  set ← (if (index_ok e "_setSize").2
         then size ← match type_of (index e "_setSize") with
                     | TInt64 => n ← assert_int64 (index e "_setSize");
                                 Ok (wrap (IntSize a) n)
                     | TInt32 => n ← assert_int32 (index e "_setSize");
                                 Ok (wrap (IntSize a) n)
                     | TInt => assert_int (index e "_setSize")
                     | _ => Ok 0
                     end;
              Ok (mkSet (Set_Id set) (Set_Op set) size)
         else Ok set);
  Ok set.

End Platform.

(** ** Meta-labels *)

Definition metaLabels : gmap string bool :=
  list_to_map
    [ ("_id", true); ("_rev", true); ("_setId", true); ("_setOp", true);
      ("_setSize", true); ("_ts", true); ("_type", true) ].

(** Indexing a [map[string]bool] yields [false] for a missing key. *)
Definition IsMetalabel (label : string) : bool :=
  default false (metaLabels !! label).

(** ** Labels *)

(** Go compares strings byte by byte; [x < y] is [String.ltb x y]. *)
Definition str_lt (x y : string) : Prop := String.ltb x y = true.

(** [sort.Strings] belongs to the Go library and sorts a slice in
    increasing order.  It is modelled by insertion under [<]; the order
    is total, so every sorting algorithm returns the same slice
    (see [sorted_perm_unique]). *)
Fixpoint insert_by_less (x : string) (l : list string) : list string :=
  match l with
  | [] => [x]
  | y :: l' =>
      if String.ltb x y then x :: y :: l' else y :: insert_by_less x l'
  end.

Fixpoint sort_Strings (l : list string) : list string :=
  match l with
  | [] => []
  | x :: l' => insert_by_less x (sort_Strings l')
  end.

(** [labels[i] = x]: an index outside the slice panics. *)
Definition slice_store (labels : list string) (i : nat) (x : string)
  : result (list string) :=
  if (i <? length labels)%nat then Ok (<[i:=x]> labels)
  else Panic (IndexOutOfRange i (length labels)).

(** The [for label := range e] loop of [Labels], run over the keys in the
    order the runtime happens to produce them. *)
Fixpoint Labels_loop (keys : list string) (labels : list string) (i : nat)
  : result (list string * nat) :=
  match keys with
  | [] => Ok (labels, i)
  | label :: rest =>
      labels' ← slice_store labels i label;
      Labels_loop rest labels' (S i)
  end.

(** [Labels] for an entity of [n] keys that [range] visits in the order
    [keys]. *)
Definition Labels_ranging (keys : list string) (n : nat)
  : result (list string) :=
  let labels := replicate n "" in
  '(labels, _) ← Labels_loop keys labels 0%nat;
  Ok (sort_Strings labels).

(** The keys of an entity in one iteration order; Go leaves the order
    unspecified, any permutation of this list can occur. *)
Definition keys_of (e : Entity) : list string := (map_to_list e).*1.

Definition Entity_Labels (e : Entity) : result (list string) :=
  Labels_ranging (keys_of e) (size e).

(** ** Write results and errors *)

(** A slice is nil or has a backing array; both can have length 0. *)
Inductive slice (A : Type) : Type :=
| NilSlice
| Slice (elems : list A).
Arguments NilSlice {A}.
Arguments Slice {A} elems.

Definition len {A : Type} (s : slice A) : Z :=
  match s with
  | NilSlice => 0
  | Slice elems => Z.of_nat (length elems)
  end.

Definition elems_of {A : Type} (s : slice A) : list A :=
  match s with
  | NilSlice => []
  | Slice elems => elems
  end.

Record Write : Type := mkWrite {
  Write_EntityId : string;
  Write_URI : string;
  Write_Diff : Entity
}.

Record Error : Type := mkError {
  Error_Message : string;
  Error_Type : string;
  Error_EntityId : string;
  Error_HTTPStatus : Z
}.

(** [Error] is a pointer field: [None] is nil. *)
Record WriteResult : Type := mkWriteResult {
  WriteResult_Writes : slice Write;
  WriteResult_Error : option Error
}.

Definition is_nil {A : Type} (p : option A) : bool :=
  match p with None => true | Some _ => false end.

Definition WriteResult_IsZero (wr : WriteResult) : bool :=
  is_nil (WriteResult_Error wr) && (len (WriteResult_Writes wr) =? 0).

Section ErrorNew.

Variable Sprintf : string -> list value -> string.

(** The body of [New], run on the frame's own copy [e] of the receiver;
    it returns the frame's [e] after the assignment. *)
Definition Error_New_body (e : Error) (msgFmt : string)
  (msgArgs : list value) : Error :=
  if negb (String.eqb msgFmt "")
  then mkError (Sprintf msgFmt msgArgs) (Error_Type e) (Error_EntityId e)
         (Error_HTTPStatus e)
  else e.

(** A call [recv.New(msgFmt, msgArgs...)]: the value receiver is copied
    into the callee's frame.  The pair is the caller's variable after
    the call and the returned value. *)
Definition Error_New_call (recv : Error) (msgFmt : string)
  (msgArgs : list value) : Error * Error :=
  let frame_e := recv in
  (recv, Error_New_body frame_e msgFmt msgArgs).

Definition Error_New (e : Error) (msgFmt : string) (msgArgs : list value)
  : Error :=
  (Error_New_call e msgFmt msgArgs).2.

Definition Error_String (e : Error) : string :=
  Sprintf "Etre error %s: %s" [VString (Error_Type e); VString (Error_Message e)].

Definition Error_Error (e : Error) : string := Error_String e.

End ErrorNew.

(** ** Derived views used by the statements *)

(** The seven reserved names. *)
Definition reserved_labels : list string :=
  [ "_id"; "_rev"; "_setId"; "_setOp"; "_setSize"; "_ts"; "_type" ].

(** What [Set] reads from a string-typed label, and from [_setSize]. *)
Definition set_string_field (o : option value) : result string :=
  match o with
  | None => Ok ""
  | Some v => assert_string v
  end.

Definition set_size_field (a : arch) (o : option value) : Z :=
  match o with
  | Some (VInt64 n) | Some (VInt32 n) => wrap (IntSize a) n
  | Some (VInt n) => n
  | _ => 0
  end.

(** Sample entities. *)
Definition entity_setId_not_string : Entity := {[ "_setId" := VInt64 7 ]}.

Definition entity_only_setId : Entity := {[ "_setId" := VString "s1" ]}.

Definition entity_bad_size_bad_id : Entity :=
  <[ "_setId" := VInt64 7 ]> {[ "_setSize" := VString "big" ]}.

Definition entity_bad_size : Entity :=
  <[ "_setId" := VString "s1" ]> {[ "_setSize" := VFloat64 0 ]}.

Definition entity_sample : Entity :=
  <[ "zone" := VString "us-west" ]>
  (<[ "_rev" := VInt32 (-5) ]>
  (<[ "Host" := VNil ]>
  (<[ "_id" := VString "abc" ]>
  {[ "app" := VSlice [] ]}))).

Definition entity_wide_size : Entity :=
  {[ "_setSize" := VInt64 4294967301 ]}.

Definition entity_no_rev : Entity := {[ "_id" := VString "abc" ]}.

Definition entity_rev_only : Entity := {[ "_rev" := VInt64 3 ]}.

Definition entity_full_set : Entity :=
  <[ "_setId" := VString "s1" ]>
  (<[ "_setOp" := VString "rollout" ]>
  {[ "_setSize" := VInt32 12 ]}).

Definition entity_full_set_labelled : Entity :=
  <[ "zone" := VString "us-west" ]> entity_full_set.

Definition error_template : Error := mkError "" "db-error" "abc" 500.

(** The powers of two behind the 32 and 64-bit ranges. *)
Ltac pow_consts :=
  change (2 ^ (32 - 1)) with 2147483648 in *;
  change (2 ^ (64 - 1)) with 9223372036854775808 in *;
  change (2 ^ 32) with 4294967296 in *;
  change (2 ^ 64) with 18446744073709551616 in *.

(** * Properties *)

(** ** The code on sample inputs *)

Example Rev_sample : Entity_Rev (fun f _ => f) entity_sample = Ok (-5).
Proof. reflexivity. Qed.

Example Labels_sample :
  Entity_Labels entity_sample = Ok ["Host"; "_id"; "_rev"; "app"; "zone"].
Proof. vm_compute. reflexivity. Qed.

Example Has_nil_value :
  Entity_Has entity_sample "Host" = true /\
  Entity_Has entity_sample "host" = false.
Proof. split; reflexivity. Qed.

Example String_sample :
  Entity_String entity_sample "zone" = Ok "us-west" /\
  Entity_String entity_sample "_rev" = Ok "" /\
  Entity_String entity_sample "Host" = Ok "" /\
  Entity_String entity_sample "none" = Ok "".
Proof. repeat split; reflexivity. Qed.

Example Set_sample : Entity_Set Arch64 entity_sample = Ok (mkSet "" "" 0).
Proof. reflexivity. Qed.

(** [int(x)] truncates an int64 where [int] has 32 bits. *)
Example Set_size_by_platform :
  Entity_Set Arch64 entity_wide_size = Ok (mkSet "" "" 4294967301) /\
  Entity_Set Arch32 entity_wide_size = Ok (mkSet "" "" 5).
Proof. split; reflexivity. Qed.

Example IsZero_sample :
  WriteResult_IsZero (mkWriteResult NilSlice None) = true /\
  WriteResult_IsZero (mkWriteResult (Slice []) None) = true /\
  WriteResult_IsZero
    (mkWriteResult (Slice []) (Some (mkError "m" "t" "" 400))) = false /\
  WriteResult_IsZero
    (mkWriteResult (Slice [mkWrite "abc" "" ∅]) None) = false.
Proof. repeat split; reflexivity. Qed.

(** ** Machine integers *)

Lemma in_range_32_64 (z : Z) : in_range 32 z -> in_range 64 z.
Proof. unfold in_range. pow_consts. lia. Qed.

Lemma in_range_IntSize_64 (a : arch) (z : Z) :
  in_range (IntSize a) z -> in_range 64 z.
Proof. destruct a; [apply in_range_32_64 | trivial]. Qed.

Lemma wrap_64_in_range (z : Z) : in_range 64 z -> wrap 64 z = z.
Proof.
  unfold in_range, wrap. pow_consts. intros Hz.
  rewrite Z.mod_small; lia.
Qed.

(** ** Map access *)

Lemma index_Some (e : Entity) (k : string) (v : value) :
  e !! k = Some v -> index e k = v.
Proof. unfold index. now intros ->. Qed.

Lemma index_None (e : Entity) (k : string) :
  e !! k = None -> index e k = VNil.
Proof. unfold index. now intros ->. Qed.

(** ** Rev *)

Section RevProperties.

Variable Sprintf : string -> list value -> string.

Lemma Entity_Rev_int64 (e : Entity) (v : Z) :
  e !! META_LABEL_REV = Some (VInt64 v) -> Entity_Rev Sprintf e = Ok v.
Proof. intros H. unfold Entity_Rev. now rewrite (index_Some _ _ _ H). Qed.

Lemma Entity_Rev_int32 (e : Entity) (v : Z) :
  e !! META_LABEL_REV = Some (VInt32 v) ->
  Entity_Rev Sprintf e = Ok (wrap 64 v).
Proof. intros H. unfold Entity_Rev. now rewrite (index_Some _ _ _ H). Qed.

Lemma Entity_Rev_int (e : Entity) (v : Z) :
  e !! META_LABEL_REV = Some (VInt v) ->
  Entity_Rev Sprintf e = Ok (wrap 64 v).
Proof. intros H. unfold Entity_Rev. now rewrite (index_Some _ _ _ H). Qed.

(** The default branch: the panic message needs [e.Id()], which panics
    itself when [_id] is not a string. *)
Lemma Entity_Rev_default (e : Entity) :
  type_of (index e META_LABEL_REV) <> TInt64 ->
  type_of (index e META_LABEL_REV) <> TInt32 ->
  type_of (index e META_LABEL_REV) <> TInt ->
  Entity_Rev Sprintf e =
    id ← Entity_Id e;
    Panic (PanicString (Sprintf
      "entity %s has invalid _rev data type: %T; expected int64 (or int/int32 before v0.11)"
      [VString id; index e META_LABEL_REV])).
Proof.
  intros H64 H32 Hint. unfold Entity_Rev.
  destruct (index e META_LABEL_REV); simpl in *; congruence.
Qed.

Lemma bind_Panic_panics {A B : Type} (r : result A) (p : A -> panic) :
  panics (x ← r; @Panic B (p x)).
Proof. destruct r as [x|q]; [exists (p x) | exists q]; reflexivity. Qed.

(** C1: when [_rev] holds an integer [v] stored as int64, int32 or int
    (within the range of its type), [Rev] returns [v], a signed 64-bit
    integer; the result is the same number for each of the three
    encodings. *)
Theorem Entity_Rev_integer_encodings (a : arch) (e : Entity) (x : value)
  (v : Z) :
  e !! META_LABEL_REV = Some x ->
  (x = VInt64 v /\ in_range 64 v) \/
  (x = VInt32 v /\ in_range 32 v) \/
  (x = VInt v /\ in_range (IntSize a) v) ->
  Entity_Rev Sprintf e = Ok v /\ in_range 64 v.
Proof.
  intros Hx [[-> Hv] | [[-> Hv] | [-> Hv]]].
  - split; [now apply Entity_Rev_int64 | exact Hv].
  - apply in_range_32_64 in Hv. split; [| exact Hv].
    rewrite (Entity_Rev_int32 _ _ Hx). now rewrite wrap_64_in_range.
  - apply in_range_IntSize_64 in Hv. split; [| exact Hv].
    rewrite (Entity_Rev_int _ _ Hx). now rewrite wrap_64_in_range.
Qed.

(** C2: when [_rev] is absent, or holds a value whose type is none of
    int64, int32 and int, [Rev] panics; it returns no number at all, in
    particular not 0. *)
Theorem Entity_Rev_panics_otherwise (e : Entity) :
  e !! META_LABEL_REV = None \/
  (exists x, e !! META_LABEL_REV = Some x /\
     type_of x <> TInt64 /\ type_of x <> TInt32 /\ type_of x <> TInt) ->
  panics (Entity_Rev Sprintf e) /\ forall n, Entity_Rev Sprintf e <> Ok n.
Proof.
  intros H.
  assert (Hp : panics (Entity_Rev Sprintf e)).
  { destruct H as [H | (x & H & H64 & H32 & Hint)].
    - rewrite Entity_Rev_default;
        rewrite ?(index_None _ _ H); simpl; try congruence.
      apply bind_Panic_panics.
    - rewrite Entity_Rev_default;
        rewrite ?(index_Some _ _ _ H); try assumption.
      apply bind_Panic_panics. }
  split; [exact Hp |].
  intros n Hn. destruct Hp as [p Hp]. congruence.
Qed.

End RevProperties.

Lemma Entity_Rev_integer_encodings_witness :
  Entity_Rev (fun f _ => f) {[ "_rev" := VInt32 7 ]} = Ok 7 /\ in_range 64 7.
Proof.
  apply (Entity_Rev_integer_encodings (fun f _ => f) Arch64
           {[ "_rev" := VInt32 7 ]} (VInt32 7) 7).
  - reflexivity.
  - right; left. split; [reflexivity |].
    unfold in_range. pow_consts. lia.
Defined.

Lemma Entity_Rev_panics_otherwise_witness :
  panics (Entity_Rev (fun f _ => f) {[ "_rev" := VString "3" ]}) /\
  forall n, Entity_Rev (fun f _ => f) {[ "_rev" := VString "3" ]} <> Ok n.
Proof.
  apply (Entity_Rev_panics_otherwise (fun f _ => f)
           {[ "_rev" := VString "3" ]}).
  right. exists (VString "3").
  split; [reflexivity |]. simpl. repeat split; discriminate.
Defined.

(** ** Has and String *)

(** C9: [Has] is true exactly when the key is in the map, whatever the
    value stored under it: a label stored with any value at all, nil, zero
    or empty included, is reported, a deleted one is not. *)
Theorem Entity_Has_iff_key_exists (e : Entity) (label : string) :
  (Entity_Has e label = true <-> is_Some (e !! label)) /\
  (forall v : value, Entity_Has (<[label := v]> e) label = true) /\
  Entity_Has (delete label e) label = false.
Proof.
  unfold Entity_Has, index_ok. repeat split.
  - destruct (e !! label) eqn:E; [eauto | discriminate].
  - intros [v ->]. reflexivity.
  - intros v. now rewrite lookup_insert_eq.
  - now rewrite lookup_delete_eq.
Qed.

(** C8: [String] never panics: it returns the stored value when the label
    is present with a string, and the empty string in every other case
    (absent label, nil, or a value of any other type). *)
Theorem Entity_String_total (e : Entity) (label : string) :
  Entity_String e label =
    Ok (match e !! label with
        | Some (VString s) => s
        | _ => ""
        end).
Proof.
  unfold Entity_String, index.
  destruct (e !! label) as [[]|]; reflexivity.
Qed.

(** ** IsMetalabel *)

(** C7: [IsMetalabel] is true for the seven reserved names and false for
    every other string, such as the case variant [_ID] and the longer
    [_idx]. *)
Theorem IsMetalabel_exactly_reserved (label : string) :
  (IsMetalabel label = true <-> In label reserved_labels) /\
  IsMetalabel "_ID" = false /\ IsMetalabel "_idx" = false.
Proof.
  split; [| split; reflexivity].
  unfold IsMetalabel, metaLabels, reserved_labels. simpl.
  repeat match goal with
         | |- context [ <[ ?k := _ ]> _ !! label ] =>
             destruct (decide (k = label)) as [<- | ?];
             [ rewrite lookup_insert_eq; simpl; tauto
             | rewrite lookup_insert_ne by assumption ]
         end.
  rewrite lookup_empty. simpl. split; [discriminate | tauto].
Qed.

(** ** WriteResult *)

Lemma len_zero_iff {A : Type} (s : slice A) : len s = 0 <-> elems_of s = [].
Proof.
  destruct s as [| [| x l]]; simpl; split; intros H;
    first [reflexivity | discriminate | lia].
Qed.

(** C5: [IsZero] is true exactly when the slice of successful writes is
    empty (nil or of length 0) and the error pointer is nil. *)
Theorem WriteResult_IsZero_iff (wr : WriteResult) :
  WriteResult_IsZero wr = true <->
  elems_of (WriteResult_Writes wr) = [] /\ WriteResult_Error wr = None.
Proof.
  unfold WriteResult_IsZero.
  rewrite andb_true_iff, Z.eqb_eq, len_zero_iff.
  destruct (WriteResult_Error wr); simpl; split; intros [H1 H2];
    try discriminate; auto.
Qed.

(** ** Error *)

Section ErrorProperties.

Variable Sprintf : string -> list value -> string.

(** C4: [e.New("")] returns [e]; with a non-empty format the result
    carries the formatted message and [e]'s type, entity id and HTTP
    status; either way the caller's [e] is the same after the call. *)
Theorem Error_New_derives (e : Error) (msgFmt : string)
  (msgArgs : list value) :
  Error_New Sprintf e "" msgArgs = e /\
  (msgFmt <> "" ->
     Error_Message (Error_New Sprintf e msgFmt msgArgs)
       = Sprintf msgFmt msgArgs /\
     Error_Type (Error_New Sprintf e msgFmt msgArgs) = Error_Type e /\
     Error_EntityId (Error_New Sprintf e msgFmt msgArgs)
       = Error_EntityId e /\
     Error_HTTPStatus (Error_New Sprintf e msgFmt msgArgs)
       = Error_HTTPStatus e) /\
  (Error_New_call Sprintf e msgFmt msgArgs).1 = e.
Proof.
  unfold Error_New, Error_New_call, Error_New_body. simpl.
  split; [reflexivity | split; [| reflexivity]].
  intros Hne. apply String.eqb_neq in Hne. rewrite Hne. simpl. auto.
Qed.

End ErrorProperties.

Lemma Error_New_derives_witness :
  let e := mkError "" "db-error" "abc" 500 in
  let f := fun (s : string) (_ : list value) => s ++ "!" in
  Error_New f e "" [] = e /\
  (Error_Message (Error_New f e "boom" []) = "boom!" /\
   Error_Type (Error_New f e "boom" []) = "db-error" /\
   Error_EntityId (Error_New f e "boom" []) = "abc" /\
   Error_HTTPStatus (Error_New f e "boom" []) = 500) /\
  (Error_New_call f e "boom" []).1 = e.
Proof.
  intros e f.
  destruct (Error_New_derives f e "boom" []) as (H0 & Hfmt & Hrecv).
  split; [exact H0 | split; [| exact Hrecv]].
  apply Hfmt. discriminate.
Defined.

(** ** Set *)

Lemma Entity_Set_fields (a : arch) (e : Entity) :
  Entity_Set a e =
    id ← set_string_field (e !! "_setId");
    op ← set_string_field (e !! "_setOp");
    Ok (mkSet id op (set_size_field a (e !! "_setSize"))).
Proof.
  unfold Entity_Set, index_ok, index, set_string_field, set_size_field.
  destruct (e !! "_setId") as [[]|]; try reflexivity;
    destruct (e !! "_setOp") as [[]|]; try reflexivity;
    destruct (e !! "_setSize") as [[]|]; reflexivity.
Qed.

Lemma set_string_field_typed (o : option value) :
  (forall x, o = Some x -> type_of x = TString) ->
  exists s, set_string_field o = Ok s /\ (o = None -> s = "").
Proof.
  intros H. destruct o as [x|]; simpl.
  - specialize (H x eq_refl). destruct x; try discriminate.
    eexists; split; [reflexivity | discriminate].
  - now exists "".
Qed.

Lemma Entity_Set_returns (a : arch) (e : Entity) :
  (forall x, e !! "_setId" = Some x -> type_of x = TString) ->
  (forall x, e !! "_setOp" = Some x -> type_of x = TString) ->
  exists id op,
    Entity_Set a e = Ok (mkSet id op (set_size_field a (e !! "_setSize"))) /\
    (e !! "_setId" = None -> id = "") /\
    (e !! "_setOp" = None -> op = "").
Proof.
  intros Hid Hop. rewrite Entity_Set_fields.
  destruct (set_string_field_typed _ Hid) as (id & -> & Hid0).
  destruct (set_string_field_typed _ Hop) as (op & -> & Hop0).
  exists id, op. auto.
Qed.

Lemma set_string_field_cases (o : option value) :
  (exists s, set_string_field o = Ok s /\
     forall x, o = Some x -> type_of x = TString) \/
  (exists x, o = Some x /\ type_of x <> TString /\
     set_string_field o = Panic (TypeAssertion x TString)).
Proof.
  destruct o as [x|]; simpl.
  - destruct x;
      first [ left; eexists; split;
              [reflexivity | intros ? [= <-]; reflexivity]
            | right; eexists; repeat split; discriminate ].
  - left. exists "". split; [reflexivity | discriminate].
Qed.

(** [Set] panics exactly when [_setId] or [_setOp] is present with a
    value that is not a string. *)
Lemma Entity_Set_panics_iff (a : arch) (e : Entity) :
  panics (Entity_Set a e) <->
  (exists x, e !! "_setId" = Some x /\ type_of x <> TString) \/
  (exists x, e !! "_setOp" = Some x /\ type_of x <> TString).
Proof.
  rewrite Entity_Set_fields. unfold panics.
  destruct (set_string_field_cases (e !! "_setId"))
    as [(id & -> & Hid) | (x & Hx & Tx & ->)].
  - destruct (set_string_field_cases (e !! "_setOp"))
      as [(op & -> & Hop) | (y & Hy & Ty & ->)]; simpl.
    + split.
      * intros [p Hp]. discriminate.
      * intros [(x & Hx & Tx) | (y & Hy & Ty)];
          [apply Hid in Hx | apply Hop in Hy]; contradiction.
    + split; [intros _; right | intros _]; eauto.
  - simpl. split; [intros _; left | intros _]; eauto.
Qed.

(** C3, as stated, fails: an entity whose [_setId] holds an integer makes
    the type assertion [e["_setId"].(string)] panic. *)
Lemma Entity_Set_setId_not_string_panics :
  Entity_Set Arch64 entity_setId_not_string
    = Panic (TypeAssertion (VInt64 7) TString) /\
  ~ exists s, Entity_Set Arch64 entity_setId_not_string = Ok s.
Proof.
  assert (H : Entity_Set Arch64 entity_setId_not_string
              = Panic (TypeAssertion (VInt64 7) TString)) by reflexivity.
  split; [exact H |]. intros [s Hs]. congruence.
Qed.

(** C3 (amended): [Set] returns for every entity whose [_setId] and
    [_setOp], when present, hold strings; each field of the returned Set
    whose meta-label is absent is the zero value, so that with none of the
    three labels present the result is [{"", "", 0}], and with only
    [_setId] present Op is [""] and Size is 0. *)
Theorem Entity_Set_absent_fields_zero (a : arch) (e : Entity) :
  (forall x, e !! "_setId" = Some x -> type_of x = TString) ->
  (forall x, e !! "_setOp" = Some x -> type_of x = TString) ->
  exists s, Entity_Set a e = Ok s /\
    (e !! "_setId" = None -> Set_Id s = "") /\
    (e !! "_setOp" = None -> Set_Op s = "") /\
    (e !! "_setSize" = None -> Set_Size s = 0) /\
    (e !! "_setId" = None -> e !! "_setOp" = None ->
     e !! "_setSize" = None -> s = mkSet "" "" 0).
Proof.
  intros Hid Hop.
  destruct (Entity_Set_returns a e Hid Hop) as (id & op & -> & Hid0 & Hop0).
  eexists. split; [reflexivity |]. simpl. repeat split.
  - exact Hid0.
  - exact Hop0.
  - now intros ->.
  - intros H1 H2 ->. now rewrite (Hid0 H1), (Hop0 H2).
Qed.

Lemma Entity_Set_absent_fields_zero_witness :
  exists s, Entity_Set Arch64 entity_only_setId = Ok s /\
    (entity_only_setId !! "_setId" = None -> Set_Id s = "") /\
    (entity_only_setId !! "_setOp" = None -> Set_Op s = "") /\
    (entity_only_setId !! "_setSize" = None -> Set_Size s = 0) /\
    (entity_only_setId !! "_setId" = None ->
     entity_only_setId !! "_setOp" = None ->
     entity_only_setId !! "_setSize" = None -> s = mkSet "" "" 0).
Proof.
  apply (Entity_Set_absent_fields_zero Arch64 entity_only_setId).
  - intros x H. vm_compute in H. injection H as <-. reflexivity.
  - intros x H. vm_compute in H. discriminate H.
Defined.

(** C10, as stated, fails: with an unrecognised [_setSize] and a
    non-string [_setId], [Set] panics instead of returning Size 0. *)
Lemma Entity_Set_bad_size_bad_id_panics :
  entity_bad_size_bad_id !! "_setSize" = Some (VString "big") /\
  Entity_Set Arch64 entity_bad_size_bad_id
    = Panic (TypeAssertion (VInt64 7) TString) /\
  ~ exists s, Entity_Set Arch64 entity_bad_size_bad_id = Ok s /\
              Set_Size s = 0.
Proof.
  assert (H : Entity_Set Arch64 entity_bad_size_bad_id
              = Panic (TypeAssertion (VInt64 7) TString)) by reflexivity.
  split; [reflexivity | split; [exact H |]].
  intros (s & Hs & _). congruence.
Qed.

Lemma Entity_Rev_unlisted_panics (Sprintf : string -> list value -> string)
  (e : Entity) (x : value) :
  e !! META_LABEL_REV = Some x ->
  type_of x <> TInt64 -> type_of x <> TInt32 -> type_of x <> TInt ->
  panics (Entity_Rev Sprintf e).
Proof.
  intros H H64 H32 Hint.
  rewrite Entity_Rev_default; rewrite ?(index_Some _ _ _ H); try assumption.
  apply bind_Panic_panics.
Qed.

(** C10 (amended): when [_setSize] is present with a value whose type is
    none of int64, int32 and int, and [_setId] and [_setOp], when present,
    hold strings, [Set] returns with Size 0 instead of failing; the same
    value stored under [_rev] makes [Rev] panic. *)
Theorem Entity_Set_unrecognised_size_zero
  (Sprintf : string -> list value -> string) (a : arch) (e : Entity)
  (x : value) :
  e !! "_setSize" = Some x ->
  type_of x <> TInt64 -> type_of x <> TInt32 -> type_of x <> TInt ->
  (forall y, e !! "_setId" = Some y -> type_of y = TString) ->
  (forall y, e !! "_setOp" = Some y -> type_of y = TString) ->
  (exists s, Entity_Set a e = Ok s /\ Set_Size s = 0) /\
  (forall e' : Entity,
     e' !! META_LABEL_REV = Some x -> panics (Entity_Rev Sprintf e')).
Proof.
  intros Hx H64 H32 Hint Hid Hop. split.
  - destruct (Entity_Set_returns a e Hid Hop) as (id & op & -> & _).
    eexists. split; [reflexivity |]. simpl. rewrite Hx.
    destruct x; simpl in *; congruence.
  - intros e' He'. now apply (Entity_Rev_unlisted_panics Sprintf e' x).
Qed.

Lemma Entity_Set_unrecognised_size_zero_witness :
  (exists s, Entity_Set Arch32 entity_bad_size = Ok s /\ Set_Size s = 0) /\
  (forall e' : Entity,
     e' !! META_LABEL_REV = Some (VFloat64 0) ->
     panics (Entity_Rev (fun f _ => f) e')).
Proof.
  apply (Entity_Set_unrecognised_size_zero (fun f _ => f) Arch32
           entity_bad_size (VFloat64 0)).
  - reflexivity.
  - discriminate.
  - discriminate.
  - discriminate.
  - intros y H. vm_compute in H. injection H as <-. reflexivity.
  - intros y H. vm_compute in H. discriminate H.
Defined.

(** ** The order on strings *)

Lemma str_lt_compare (x y : string) : str_lt x y <-> String.compare x y = Lt.
Proof.
  unfold str_lt, String.ltb.
  destruct (String.compare x y); split; congruence.
Qed.

Lemma ascii_compare_refl (c : ascii) : Ascii.compare c c = Eq.
Proof. apply N.compare_refl. Qed.

Lemma ascii_compare_lt_trans (a b c : ascii) :
  Ascii.compare a b = Lt -> Ascii.compare b c = Lt -> Ascii.compare a c = Lt.
Proof.
  unfold Ascii.compare. rewrite !N.compare_lt_iff. apply N.lt_trans.
Qed.

Lemma string_compare_refl (s : string) : String.compare s s = Eq.
Proof.
  induction s as [| c s IH]; simpl; [reflexivity |].
  now rewrite ascii_compare_refl.
Qed.

Lemma string_compare_lt_trans (x y z : string) :
  String.compare x y = Lt -> String.compare y z = Lt ->
  String.compare x z = Lt.
Proof.
  revert y z. induction x as [| a x IH]; intros [| b y] [| c z]; simpl;
    try congruence.
  destruct (Ascii.compare a b) eqn:Eab; try discriminate.
  - apply Ascii.compare_eq_iff in Eab. subst b.
    destruct (Ascii.compare a c); try congruence. apply IH.
  - destruct (Ascii.compare b c) eqn:Ebc; try discriminate.
    + apply Ascii.compare_eq_iff in Ebc. subst c. now rewrite Eab.
    + now rewrite (ascii_compare_lt_trans _ _ _ Eab Ebc).
Qed.

Lemma str_lt_trans (x y z : string) : str_lt x y -> str_lt y z -> str_lt x z.
Proof. rewrite !str_lt_compare. apply string_compare_lt_trans. Qed.

Lemma str_lt_irrefl (x : string) : ~ str_lt x x.
Proof. rewrite str_lt_compare, string_compare_refl. discriminate. Qed.

Lemma str_lt_connected (x y : string) :
  String.ltb x y = false -> x <> y -> str_lt y x.
Proof.
  intros Hxy Hne. apply str_lt_compare.
  unfold String.ltb in Hxy. rewrite String.compare_antisym.
  destruct (String.compare x y) eqn:E; try discriminate; [| reflexivity].
  apply String.compare_eq_iff in E. contradiction.
Qed.

(** ** Sorting *)

Lemma insert_by_less_perm (x : string) (l : list string) :
  Permutation (x :: l) (insert_by_less x l).
Proof.
  induction l as [| y l IH]; simpl; [reflexivity |].
  destruct (String.ltb x y); [reflexivity |].
  rewrite perm_swap. now apply perm_skip.
Qed.

Lemma sort_Strings_perm (l : list string) : Permutation l (sort_Strings l).
Proof.
  induction l as [| x l IH]; simpl; [reflexivity |].
  rewrite <- insert_by_less_perm. now apply perm_skip.
Qed.

Lemma insert_by_less_sorted (x : string) (l : list string) :
  x ∉ l -> StronglySorted str_lt l ->
  StronglySorted str_lt (insert_by_less x l).
Proof.
  intros Hx Hl. induction Hl as [| y l Hl IH Hy]; simpl.
  - repeat constructor.
  - apply not_elem_of_cons in Hx as [Hne Hx].
    destruct (String.ltb x y) eqn:E.
    + constructor; [now constructor |].
      constructor; [exact E |].
      eapply Forall_impl; [exact Hy |].
      intros z Hz. now apply (str_lt_trans x y z).
    + constructor; [now apply IH |].
      rewrite <- insert_by_less_perm.
      constructor; [now apply str_lt_connected | exact Hy].
Qed.

Lemma sort_Strings_sorted (l : list string) :
  NoDup l -> StronglySorted str_lt (sort_Strings l).
Proof.
  induction 1 as [| x l Hx Hl IH]; simpl; [constructor |].
  apply insert_by_less_sorted; [| exact IH].
  now rewrite <- sort_Strings_perm.
Qed.

(** Two strictly increasing lists with the same elements are equal: the
    result of sorting does not depend on the algorithm or on the order of
    the input. *)
Lemma sorted_perm_unique (l1 l2 : list string) :
  StronglySorted str_lt l1 -> StronglySorted str_lt l2 ->
  (forall x, x ∈ l1 <-> x ∈ l2) -> l1 = l2.
Proof.
  intros H1. revert l2.
  induction H1 as [| x1 t1 H1 IH F1]; intros l2 H2 Hmem.
  - destruct l2 as [| x2 t2]; [reflexivity |].
    exfalso. apply (not_elem_of_nil x2). apply Hmem. left.
  - destruct H2 as [| x2 t2 H2 F2].
    + exfalso. apply (not_elem_of_nil x1). apply Hmem. left.
    + rewrite Forall_forall in F1, F2.
      assert (Heq : x1 = x2).
      { assert (E1 : x1 ∈ x2 :: t2) by (apply Hmem; left).
        assert (E2 : x2 ∈ x1 :: t1) by (apply Hmem; left).
        apply elem_of_cons in E1 as [E1 | E1]; [exact E1 |].
        apply elem_of_cons in E2 as [E2 | E2]; [now symmetry |].
        exfalso. apply (str_lt_irrefl x1).
        apply (str_lt_trans x1 x2 x1); [now apply F1 | now apply F2]. }
      subst x2. f_equal. apply IH; [exact H2 |].
      intros y. split; intros Hy.
      * assert (E : y ∈ x1 :: t2) by (apply Hmem; now right).
        apply elem_of_cons in E as [-> | E]; [| exact E].
        exfalso. apply (str_lt_irrefl x1). now apply F1.
      * assert (E : y ∈ x1 :: t1) by (apply Hmem; now right).
        apply elem_of_cons in E as [-> | E]; [| exact E].
        exfalso. apply (str_lt_irrefl x1). now apply F2.
Qed.

(** ** Labels *)

(** The loop fills the slice from the left, one key per iteration, and
    never leaves it. *)
Lemma Labels_loop_fills (keys filled : list string) :
  Labels_loop keys (filled ++ replicate (length keys) "")%list (length filled)
  = Ok ((filled ++ keys)%list, (length filled + length keys)%nat).
Proof.
  revert filled. induction keys as [| label rest IH]; intros filled; simpl.
  - now rewrite !app_nil_r, Nat.add_0_r.
  - unfold slice_store.
    assert (Hlt : (length filled
                   <? length (filled ++ "" :: replicate (length rest) "")%list)%nat
                  = true).
    { apply Nat.ltb_lt. rewrite length_app. simpl. lia. }
    rewrite Hlt.
    rewrite insert_app_r_alt by lia. rewrite Nat.sub_diag. simpl.
    specialize (IH (filled ++ [label])%list).
    rewrite length_app, <- !app_assoc in IH. simpl in IH.
    rewrite Nat.add_1_r in IH. rewrite IH.
    f_equal. f_equal. lia.
Qed.

Lemma Labels_ranging_sorts (keys : list string) :
  Labels_ranging keys (length keys) = Ok (sort_Strings keys).
Proof.
  unfold Labels_ranging.
  pose proof (Labels_loop_fills keys []) as H. simpl in H.
  now rewrite H.
Qed.

Lemma keys_of_length (e : Entity) : length (keys_of e) = size e.
Proof. unfold keys_of. now rewrite length_fmap, length_map_to_list. Qed.

Lemma keys_of_elem (e : Entity) (k : string) :
  k ∈ keys_of e <-> is_Some (e !! k).
Proof.
  unfold keys_of. rewrite list_elem_of_fmap. split.
  - intros ([k' v] & -> & H). apply elem_of_map_to_list in H. eauto.
  - intros [v H]. exists (k, v). split; [reflexivity |].
    now apply elem_of_map_to_list.
Qed.

(** C6: [Labels] returns (without panicking) the keys of the entity, each
    once, meta-labels and user labels alike, in strictly ascending
    lexicographic order; whatever order the runtime iterates the map in,
    the call returns this same slice. *)
Theorem Entity_Labels_sorted_deterministic (e : Entity) :
  exists labels,
    Entity_Labels e = Ok labels /\
    StronglySorted str_lt labels /\
    (forall k, k ∈ labels <-> is_Some (e !! k)) /\
    length labels = size e /\
    (forall order, Permutation order (keys_of e) ->
       Labels_ranging order (size e) = Ok labels).
Proof.
  exists (sort_Strings (keys_of e)).
  assert (Hnd : NoDup (keys_of e)) by apply NoDup_fst_map_to_list.
  assert (Hmem : forall k, k ∈ sort_Strings (keys_of e) <-> is_Some (e !! k)).
  { intros k. rewrite <- sort_Strings_perm. apply keys_of_elem. }
  repeat split.
  - unfold Entity_Labels. rewrite <- keys_of_length.
    apply Labels_ranging_sorts.
  - now apply sort_Strings_sorted.
  - apply Hmem.
  - apply Hmem.
  - rewrite <- sort_Strings_perm. apply keys_of_length.
  - intros order Hperm.
    rewrite <- keys_of_length, <- (Permutation_length Hperm).
    rewrite Labels_ranging_sorts. f_equal.
    apply sorted_perm_unique.
    + apply sort_Strings_sorted. now rewrite Hperm.
    + now apply sort_Strings_sorted.
    + intros k. now rewrite <- !sort_Strings_perm, Hperm.
Qed.

(** * Further properties of the package *)

(** ** Id and Type *)

Lemma assert_string_Ok_iff (v : value) (s : string) :
  assert_string v = Ok s <-> v = VString s.
Proof.
  destruct v; simpl; split; intros H; try discriminate; congruence.
Qed.

Lemma index_VString_iff (e : Entity) (k s : string) :
  index e k = VString s <-> e !! k = Some (VString s).
Proof.
  unfold index. destruct (e !! k) as [v|]; simpl; split; intros H;
    try discriminate; congruence.
Qed.

Lemma assert_string_cases (v : value) :
  (exists s, v = VString s /\ assert_string v = Ok s) \/
  ((forall s, v <> VString s) /\
   assert_string v = Panic (TypeAssertion v TString)).
Proof.
  destruct v; first [ left; eexists; split; reflexivity
                    | right; split; [intros s; discriminate | reflexivity] ].
Qed.


(** X2: [Type] returns [s] exactly when [_type] is present and holds the
    string [s], and panics on the type assertion in every other case. *)
Theorem Entity_Type_string_or_panic (e : Entity) :
  (forall s,
     Entity_Type e = Ok s <-> e !! META_LABEL_TYPE = Some (VString s)) /\
  ((forall s, e !! META_LABEL_TYPE <> Some (VString s)) <->
   Entity_Type e = Panic (TypeAssertion (index e META_LABEL_TYPE) TString)).
Proof.
  unfold Entity_Type. split.
  - intros s. now rewrite assert_string_Ok_iff, index_VString_iff.
  - destruct (assert_string_cases (index e META_LABEL_TYPE))
      as [(s & Hs & ->) | (Hn & ->)].
    + apply index_VString_iff in Hs. split; [| discriminate].
      intros H. now destruct (H s).
    + split; [reflexivity |]. intros _ s Hs.
      apply index_VString_iff in Hs. now destruct (Hn s).
Qed.

(** X3: [String] is the non-panicking reading of [_id] and [_type]: it
    returns what [Id] (resp. [Type]) returns, and the empty string where
    they panic. *)
Theorem Entity_String_totalises_Id_Type (e : Entity) :
  Entity_String e META_LABEL_ID
    = Ok (match Entity_Id e with Ok s => s | Panic _ => "" end) /\
  Entity_String e META_LABEL_TYPE
    = Ok (match Entity_Type e with Ok s => s | Panic _ => "" end).
Proof.
  unfold Entity_String, Entity_Id, Entity_Type.
  split.
  - destruct (index e META_LABEL_ID); reflexivity.
  - destruct (index e META_LABEL_TYPE); reflexivity.
Qed.

(** ** Rev *)

(** X4: on an unrecognised [_rev], the panic carries the formatted
    "invalid _rev data type" message only when [_id] holds a string; with
    [_id] absent or not a string, evaluating [e.Id()] for the message
    panics first, and the panic is the failed type assertion on [_id]. *)
Theorem Entity_Rev_panic_value (Sprintf : string -> list value -> string)
  (e : Entity) :
  type_of (index e META_LABEL_REV) <> TInt64 ->
  type_of (index e META_LABEL_REV) <> TInt32 ->
  type_of (index e META_LABEL_REV) <> TInt ->
  (forall id, e !! META_LABEL_ID = Some (VString id) ->
     Entity_Rev Sprintf e =
       Panic (PanicString (Sprintf
         "entity %s has invalid _rev data type: %T; expected int64 (or int/int32 before v0.11)"
         [VString id; index e META_LABEL_REV]))) /\
  ((forall id, e !! META_LABEL_ID <> Some (VString id)) ->
     Entity_Rev Sprintf e =
       Panic (TypeAssertion (index e META_LABEL_ID) TString)).
Proof.
  intros H64 H32 Hint.
  rewrite (Entity_Rev_default Sprintf e H64 H32 Hint). unfold Entity_Id.
  destruct (assert_string_cases (index e META_LABEL_ID))
    as [(s & Hs & ->) | (Hn & ->)].
  - apply index_VString_iff in Hs. split.
    + intros id Hid. rewrite Hs in Hid. now injection Hid as ->.
    + intros H. now destruct (H s).
  - split; [| reflexivity].
    intros id Hid. apply index_VString_iff in Hid. now destruct (Hn id).
Qed.

Lemma Entity_Rev_panic_value_witness :
  (forall id, entity_no_rev !! META_LABEL_ID = Some (VString id) ->
     Entity_Rev (fun f _ => f) entity_no_rev =
       Panic (PanicString
         "entity %s has invalid _rev data type: %T; expected int64 (or int/int32 before v0.11)")) /\
  ((forall id, entity_no_rev !! META_LABEL_ID <> Some (VString id)) ->
     Entity_Rev (fun f _ => f) entity_no_rev =
       Panic (TypeAssertion (index entity_no_rev META_LABEL_ID) TString)).
Proof.
  apply (Entity_Rev_panic_value (fun f _ => f) entity_no_rev);
    vm_compute; discriminate.
Defined.

(** X5: [Rev] reads [_rev] and, to report a bad one, [_id]; two entities
    that agree on these two labels get the same result, whatever their
    other labels hold. *)
Theorem Entity_Rev_reads_rev_and_id
  (Sprintf : string -> list value -> string) (e1 e2 : Entity) :
  e1 !! META_LABEL_REV = e2 !! META_LABEL_REV ->
  e1 !! META_LABEL_ID = e2 !! META_LABEL_ID ->
  Entity_Rev Sprintf e1 = Entity_Rev Sprintf e2.
Proof.
  intros Hrev Hid. unfold Entity_Rev, Entity_Id, index.
  now rewrite Hrev, Hid.
Qed.

Lemma Entity_Rev_reads_rev_and_id_witness :
  Entity_Rev (fun f _ => f) (<[ "zone" := VInt 1 ]> entity_rev_only)
  = Entity_Rev (fun f _ => f) entity_rev_only.
Proof.
  apply (Entity_Rev_reads_rev_and_id (fun f _ => f)
           (<[ "zone" := VInt 1 ]> entity_rev_only) entity_rev_only);
    reflexivity.
Defined.

(** ** Set *)

Lemma wrap_IntSize_fits (a : arch) (z : Z) :
  in_range (IntSize a) (wrap (IntSize a) z).
Proof.
  destruct a; unfold in_range, wrap, IntSize; pow_consts.
  - pose proof (Z.mod_pos_bound (z + 2147483648) 4294967296). lia.
  - pose proof (Z.mod_pos_bound (z + 9223372036854775808)
                  18446744073709551616). lia.
Qed.

Lemma wrap_IntSize_id_iff (a : arch) (z : Z) :
  wrap (IntSize a) z = z <-> in_range (IntSize a) z.
Proof.
  split.
  - intros <-. apply wrap_IntSize_fits.
  - destruct a; unfold in_range, wrap, IntSize; pow_consts; intros Hz;
      rewrite Z.mod_small; lia.
Qed.

(** X6: [Set] panics exactly when [_setId] or [_setOp] is present with a
    value that is not a string, and the panic is then the failed string
    assertion on one of these two labels; [_setSize] never makes it
    panic. *)
Theorem Entity_Set_panics_on_non_string (a : arch) (e : Entity) :
  (panics (Entity_Set a e) <->
     (exists x, e !! "_setId" = Some x /\ type_of x <> TString) \/
     (exists x, e !! "_setOp" = Some x /\ type_of x <> TString)) /\
  (forall p, Entity_Set a e = Panic p ->
     p = TypeAssertion (index e "_setId") TString \/
     p = TypeAssertion (index e "_setOp") TString).
Proof.
  split; [apply Entity_Set_panics_iff |].
  intros p. rewrite Entity_Set_fields. unfold index.
  destruct (set_string_field_cases (e !! "_setId"))
    as [(id & -> & _) | (x & Hx & _ & ->)].
  - destruct (set_string_field_cases (e !! "_setOp"))
      as [(op & -> & _) | (y & Hy & _ & ->)]; simpl.
    + discriminate.
    + intros [= <-]. right. now rewrite Hy.
  - simpl. intros [= <-]. left. now rewrite Hx.
Qed.

(** X7: with all three labels set, [_setId] and [_setOp] to strings and
    [_setSize] to an integer [n] in any of the three encodings that fits
    the platform's [int], [Set] returns exactly [{id, op, n}]. *)
Theorem Entity_Set_projects_labels (a : arch) (e : Entity) (id op : string)
  (x : value) (n : Z) :
  e !! "_setId" = Some (VString id) ->
  e !! "_setOp" = Some (VString op) ->
  e !! "_setSize" = Some x ->
  x = VInt64 n \/ x = VInt32 n \/ x = VInt n ->
  in_range (IntSize a) n ->
  Entity_Set a e = Ok (mkSet id op n).
Proof.
  intros Hid Hop Hsize Hx Hn.
  rewrite Entity_Set_fields, Hid, Hop, Hsize. simpl.
  apply wrap_IntSize_id_iff in Hn.
  destruct Hx as [-> | [-> | ->]]; simpl; now rewrite ?Hn.
Qed.

Lemma Entity_Set_projects_labels_witness :
  Entity_Set Arch32 entity_full_set = Ok (mkSet "s1" "rollout" 12).
Proof.
  apply (Entity_Set_projects_labels Arch32 entity_full_set "s1" "rollout"
           (VInt32 12) 12); try reflexivity.
  - right; left; reflexivity.
  - unfold in_range, IntSize. pow_consts. lia.
Defined.

(** X8: a [_setSize] stored as int64 or int32 is converted with [int(...)]:
    the Size returned always fits the platform's [int], and it equals the
    stored number exactly when that number fits; a wider one is
    truncated, not rejected. *)
Theorem Entity_Set_size_truncates (a : arch) (e : Entity) (x : value)
  (n : Z) :
  e !! "_setSize" = Some x ->
  x = VInt64 n \/ x = VInt32 n ->
  (forall y, e !! "_setId" = Some y -> type_of y = TString) ->
  (forall y, e !! "_setOp" = Some y -> type_of y = TString) ->
  exists s, Entity_Set a e = Ok s /\
    Set_Size s = wrap (IntSize a) n /\
    in_range (IntSize a) (Set_Size s) /\
    (Set_Size s = n <-> in_range (IntSize a) n).
Proof.
  intros Hsize Hx Hid Hop.
  destruct (Entity_Set_returns a e Hid Hop) as (id & op & -> & _).
  eexists. split; [reflexivity |]. simpl. rewrite Hsize.
  assert (Hw : set_size_field a (Some x) = wrap (IntSize a) n)
    by (destruct Hx as [-> | ->]; reflexivity).
  rewrite Hw. split; [reflexivity |].
  split; [apply wrap_IntSize_fits | apply wrap_IntSize_id_iff].
Qed.

Lemma Entity_Set_size_truncates_witness :
  exists s, Entity_Set Arch32 entity_wide_size = Ok s /\
    Set_Size s = wrap (IntSize Arch32) 4294967301 /\
    in_range (IntSize Arch32) (Set_Size s) /\
    (Set_Size s = 4294967301 <-> in_range (IntSize Arch32) 4294967301).
Proof.
  apply (Entity_Set_size_truncates Arch32 entity_wide_size
           (VInt64 4294967301) 4294967301).
  - reflexivity.
  - left; reflexivity.
  - intros y H. vm_compute in H. discriminate H.
  - intros y H. vm_compute in H. discriminate H.
Defined.

(** X9: [Set] reads the three [_set] labels and nothing else: two
    entities that agree on them get the same result, panic included. *)
Theorem Entity_Set_reads_set_labels (a : arch) (e1 e2 : Entity) :
  e1 !! "_setId" = e2 !! "_setId" ->
  e1 !! "_setOp" = e2 !! "_setOp" ->
  e1 !! "_setSize" = e2 !! "_setSize" ->
  Entity_Set a e1 = Entity_Set a e2.
Proof.
  intros Hid Hop Hsize. rewrite !Entity_Set_fields.
  now rewrite Hid, Hop, Hsize.
Qed.

Lemma Entity_Set_reads_set_labels_witness :
  Entity_Set Arch64 entity_full_set_labelled
  = Entity_Set Arch64 entity_full_set.
Proof.
  apply (Entity_Set_reads_set_labels Arch64 entity_full_set_labelled
           entity_full_set); reflexivity.
Defined.

(** X10: when [Set] returns, its Id and Op are what [String] reads from
    [_setId] and [_setOp]. *)
Theorem Entity_Set_agrees_with_String (a : arch) (e : Entity) (s : Set_) :
  Entity_Set a e = Ok s ->
  Entity_String e "_setId" = Ok (Set_Id s) /\
  Entity_String e "_setOp" = Ok (Set_Op s).
Proof.
  rewrite Entity_Set_fields. unfold Entity_String, index, set_string_field.
  destruct (e !! "_setId") as [[]|]; simpl; try discriminate;
    destruct (e !! "_setOp") as [[]|]; simpl; try discriminate;
    intros [= <-]; split; reflexivity.
Qed.

Lemma Entity_Set_agrees_with_String_witness :
  Entity_String entity_full_set "_setId" = Ok "s1" /\
  Entity_String entity_full_set "_setOp" = Ok "rollout".
Proof.
  exact (Entity_Set_agrees_with_String Arch64 entity_full_set
           (mkSet "s1" "rollout" 12) eq_refl).
Defined.

(** ** Labels *)

Lemma Entity_Has_is_Some (e : Entity) (k : string) :
  Entity_Has e k = true <-> is_Some (e !! k).
Proof.
  unfold Entity_Has, index_ok.
  destruct (e !! k); split; intros H; try discriminate; eauto.
  now destruct H.
Qed.

Lemma Entity_Labels_eq (e : Entity) :
  Entity_Labels e = Ok (sort_Strings (keys_of e)).
Proof.
  unfold Entity_Labels. rewrite <- keys_of_length.
  apply Labels_ranging_sorts.
Qed.

Lemma sorted_keys_sorted (e : Entity) :
  StronglySorted str_lt (sort_Strings (keys_of e)).
Proof. apply sort_Strings_sorted, NoDup_fst_map_to_list. Qed.

Lemma sorted_keys_elem (e : Entity) (k : string) :
  k ∈ sort_Strings (keys_of e) <-> is_Some (e !! k).
Proof. rewrite <- sort_Strings_perm. apply keys_of_elem. Qed.

Lemma insert_by_less_split (x : string) (l : list string) :
  exists l1 l2, l = (l1 ++ l2)%list /\
                insert_by_less x l = (l1 ++ x :: l2)%list.
Proof.
  induction l as [| y l (l1 & l2 & Hl & Hi)]; simpl.
  - now exists [], [].
  - destruct (String.ltb x y).
    + now exists [], (y :: l).
    + exists (y :: l1), l2. simpl. now rewrite <- Hl, Hi.
Qed.

(** A label that is new to the entity enters the sorted labels at one
    position, the others keeping their places. *)
Lemma Entity_Labels_insert_fresh (e : Entity) (k : string) (v : value) :
  e !! k = None ->
  exists l1 l2,
    Entity_Labels e = Ok (l1 ++ l2)%list /\
    Entity_Labels (<[k := v]> e) = Ok (l1 ++ k :: l2)%list.
Proof.
  intros Hk. rewrite !Entity_Labels_eq.
  destruct (insert_by_less_split k (sort_Strings (keys_of e)))
    as (l1 & l2 & Hl & Hi).
  exists l1, l2. split; [now rewrite Hl |]. rewrite <- Hi. f_equal.
  assert (Hnot : k ∉ sort_Strings (keys_of e)).
  { rewrite sorted_keys_elem, Hk. intros [? ?]. discriminate. }
  apply sorted_perm_unique.
  - apply sorted_keys_sorted.
  - apply insert_by_less_sorted; [exact Hnot | apply sorted_keys_sorted].
  - intros x. rewrite <- insert_by_less_perm, elem_of_cons.
    rewrite !sorted_keys_elem.
    destruct (decide (k = x)) as [<- | Hne].
    + rewrite lookup_insert_eq. split; eauto.
    + rewrite lookup_insert_ne by exact Hne. split; [eauto |].
      intros [-> | H]; [contradiction | exact H].
Qed.

(** X11: [Labels] lists exactly the labels for which [Has] is true. *)
Theorem Entity_Labels_agrees_with_Has (e : Entity) :
  exists labels,
    Entity_Labels e = Ok labels /\
    forall k, k ∈ labels <-> Entity_Has e k = true.
Proof.
  exists (sort_Strings (keys_of e)). split; [apply Entity_Labels_eq |].
  intros k. now rewrite sorted_keys_elem, Entity_Has_is_Some.
Qed.

(** X12: [Labels] depends on which labels are present only: two entities
    with the same labels, whatever the values stored under them, have the
    same [Labels]; in particular overwriting the value of a label leaves
    [Labels] as it was. *)
Theorem Entity_Labels_ignores_values (e1 e2 : Entity) :
  (forall k, Entity_Has e1 k = Entity_Has e2 k) ->
  Entity_Labels e1 = Entity_Labels e2.
Proof.
  intros H. rewrite !Entity_Labels_eq. f_equal.
  apply sorted_perm_unique; try apply sorted_keys_sorted.
  intros k. rewrite !sorted_keys_elem, <- !Entity_Has_is_Some.
  now rewrite H.
Qed.

Lemma Entity_Labels_ignores_values_witness :
  Entity_Labels (<[ "_id" := VInt 9 ]> entity_sample)
  = Entity_Labels entity_sample.
Proof.
  apply (Entity_Labels_ignores_values
           (<[ "_id" := VInt 9 ]> entity_sample) entity_sample).
  intros k. unfold Entity_Has, index_ok.
  destruct (decide ("_id" = k)) as [<- | Hne].
  - reflexivity.
  - now rewrite lookup_insert_ne.
Defined.

(** X13: setting a label the entity does not have adds it to [Labels] at
    one position and leaves the other labels in place and in order. *)
Theorem Entity_Labels_after_new_label (e : Entity) (k : string)
  (v : value) :
  Entity_Has e k = false ->
  exists l1 l2,
    Entity_Labels e = Ok (l1 ++ l2)%list /\
    Entity_Labels (<[k := v]> e) = Ok (l1 ++ k :: l2)%list.
Proof.
  intros Hk. apply Entity_Labels_insert_fresh.
  destruct (e !! k) eqn:E; [| reflexivity].
  assert (H : Entity_Has e k = true) by (apply Entity_Has_is_Some; eauto).
  congruence.
Qed.

Lemma Entity_Labels_after_new_label_witness :
  exists l1 l2,
    Entity_Labels entity_rev_only = Ok (l1 ++ l2)%list /\
    Entity_Labels (<[ "_id" := VString "abc" ]> entity_rev_only)
      = Ok (l1 ++ "_id" :: l2)%list.
Proof.
  apply (Entity_Labels_after_new_label entity_rev_only "_id" (VString "abc")).
  reflexivity.
Defined.

(** X14: deleting a label the entity has removes its one occurrence from
    [Labels] and leaves the other labels in place and in order. *)
Theorem Entity_Labels_after_delete (e : Entity) (k : string) :
  Entity_Has e k = true ->
  exists l1 l2,
    Entity_Labels e = Ok (l1 ++ k :: l2)%list /\
    Entity_Labels (delete k e) = Ok (l1 ++ l2)%list.
Proof.
  intros Hk. apply Entity_Has_is_Some in Hk as [v Hv].
  destruct (Entity_Labels_insert_fresh (delete k e) k v)
    as (l1 & l2 & Hdel & Hins); [apply lookup_delete_eq |].
  exists l1, l2. split; [| exact Hdel].
  rewrite insert_delete_eq in Hins. now rewrite insert_id in Hins.
Qed.

Lemma Entity_Labels_after_delete_witness :
  exists l1 l2,
    Entity_Labels entity_sample = Ok (l1 ++ "_rev" :: l2)%list /\
    Entity_Labels (delete "_rev" entity_sample) = Ok (l1 ++ l2)%list.
Proof.
  apply (Entity_Labels_after_delete entity_sample "_rev"). reflexivity.
Defined.

(** ** Error *)

Section ErrorFurther.

Variable Sprintf : string -> list value -> string.

Lemma Error_New_nonempty (e : Error) (msgFmt : string)
  (msgArgs : list value) :
  msgFmt <> "" ->
  Error_New Sprintf e msgFmt msgArgs
  = mkError (Sprintf msgFmt msgArgs) (Error_Type e) (Error_EntityId e)
      (Error_HTTPStatus e).
Proof.
  intros Hne. apply String.eqb_neq in Hne.
  unfold Error_New, Error_New_call, Error_New_body. simpl.
  now rewrite Hne.
Qed.

(** X15: deriving twice keeps only the last message: with a non-empty
    second format, [e.New(f1, a1...).New(f2, a2...)] is [e.New(f2, a2...)],
    so a template's own Message never survives a derivation. *)
Theorem Error_New_last_message_wins (e : Error) (f1 f2 : string)
  (a1 a2 : list value) :
  f2 <> "" ->
  Error_New Sprintf (Error_New Sprintf e f1 a1) f2 a2
  = Error_New Sprintf e f2 a2.
Proof.
  intros Hne. rewrite !(Error_New_nonempty _ f2 a2 Hne).
  unfold Error_New, Error_New_call, Error_New_body. simpl.
  destruct (negb (String.eqb f1 "")); reflexivity.
Qed.

(** X16: the text [Error()] gives for a derived error is built from the
    template's Type and the derived message only: templates of the same
    Type give the same text, whatever their EntityId, HTTPStatus and own
    Message. *)
Theorem Error_Error_of_derived (e1 e2 : Error) (msgFmt : string)
  (msgArgs : list value) :
  msgFmt <> "" ->
  Error_Type e1 = Error_Type e2 ->
  Error_Error Sprintf (Error_New Sprintf e1 msgFmt msgArgs)
  = Sprintf "Etre error %s: %s"
      [VString (Error_Type e1); VString (Sprintf msgFmt msgArgs)] /\
  Error_Error Sprintf (Error_New Sprintf e1 msgFmt msgArgs)
  = Error_Error Sprintf (Error_New Sprintf e2 msgFmt msgArgs).
Proof.
  intros Hne Hty. rewrite !(Error_New_nonempty _ msgFmt msgArgs Hne).
  unfold Error_Error, Error_String. simpl. now rewrite Hty.
Qed.

End ErrorFurther.

Lemma Error_New_last_message_wins_witness :
  Error_New (fun f _ => f) (Error_New (fun f _ => f) error_template "a" [])
    "b" []
  = Error_New (fun f _ => f) error_template "b" [].
Proof.
  apply (Error_New_last_message_wins (fun f _ => f) error_template
           "a" "b" [] []).
  discriminate.
Defined.

Lemma Error_Error_of_derived_witness :
  Error_Error (fun f _ => f)
    (Error_New (fun f _ => f) error_template "boom" [])
  = "Etre error %s: %s" /\
  Error_Error (fun f _ => f)
    (Error_New (fun f _ => f) error_template "boom" [])
  = Error_Error (fun f _ => f)
      (Error_New (fun f _ => f) (mkError "old" "db-error" "" 404) "boom" []).
Proof.
  apply (Error_Error_of_derived (fun f _ => f) error_template
           (mkError "old" "db-error" "" 404) "boom" []).
  - discriminate.
  - reflexivity.
Defined.

(** ** When Rev returns *)

Lemma bind_Panic_not_Ok {A B : Type} (r : result A) (p : A -> panic)
  (b : B) : (x ← r; @Panic B (p x)) <> Ok b.
Proof. destruct r; discriminate. Qed.

(** X17: [Rev] returns a number exactly when [_rev] is present and holds
    an int64, int32 or int: the int64 itself, or the int32 or int
    converted to int64. *)
Theorem Entity_Rev_returns_iff (Sprintf : string -> list value -> string)
  (e : Entity) (n : Z) :
  Entity_Rev Sprintf e = Ok n <->
  exists x, e !! META_LABEL_REV = Some x /\
    (x = VInt64 n \/
     exists m, (x = VInt32 m \/ x = VInt m) /\ n = wrap 64 m).
Proof.
  split.
  - intros H. unfold Entity_Rev, index in H.
    destruct (e !! META_LABEL_REV) as [x|] eqn:E; simpl in H;
      [| now apply bind_Panic_not_Ok in H].
    exists x. split; [reflexivity |].
    destruct x; simpl in H;
      try (now apply bind_Panic_not_Ok in H);
      injection H as <-; eauto.
  - intros (x & Hx & [-> | (m & [-> | ->] & ->)]).
    + now apply Entity_Rev_int64.
    + now apply Entity_Rev_int32.
    + now apply Entity_Rev_int.
Qed.
